(** * flask_todo_app: the todo store and its five routes

    A shallow embedding of [app.py]: the [Todo] table, the unit-of-work
    session the handlers talk to ([db.session]), the five view functions
    and the request cycle around them, followed by the properties of the
    application that hold for every store it can reach.

    What the file takes from the libraries [app.py] is built on:
    - the storage engine is SQLite ([sqlite:///db.sqlite]) and [Todo.id] is
      an [INTEGER] primary key declared without [AUTOINCREMENT], so it
      is the table's rowid: an insert that gives no id takes the largest
      rowid in the table plus one, or 1 in an empty table;
    - SQLite does not enforce the length of [String(100)];
    - a scan of the table yields the rows in rowid order;
    - the rules [<int:id>] match a segment of digits only: a negative
      number in the URL matches no rule and is answered with 404 before
      any view function is called;
    - the database driver binds an integer only if it fits 64 bits and
      raises [OverflowError] otherwise, inside the lookup;
    - [query.first()] is [None] when no row matches; reading an attribute
      of [None] raises [AttributeError]; [session.delete(None)] raises
      [UnmappedInstanceError];
    - an exception that leaves a view function becomes a 500 response, and
      the session is discarded with whatever it had not committed.
    The 64-bit bound of a stored rowid is not modelled: the ids in the
    table are unbounded integers. *)

From Stdlib Require Import ZArith List String Bool Lia Sorted.
Import ListNotations.
Open Scope string_scope.
Open Scope list_scope.
Open Scope Z_scope.

(** ** The model class

    [class Todo(db.Model)]: [id] is the primary key; [title] and
    [completed] are nullable columns, [None] in Python. *)

Record Todo : Type := mkTodo {
  id : Z;
  title : option string;
  completed : option bool
}.

(** The table [todo], as the sequence of its rows in scan order. *)
Definition Table : Type := list Todo.

Definition ids (t : Table) : list Z := map id t.

(** ** The storage engine *)

(** Largest rowid in use, [None] for an empty table. *)
Fixpoint max_rowid (t : Table) : option Z :=
  match t with
  | [] => None
  | r :: t' =>
      match max_rowid t' with
      | None => Some (id r)
      | Some m => Some (Z.max (id r) m)
      end
  end.

(** The rowid an [INSERT] without id receives. *)
Definition new_rowid (t : Table) : Z :=
  match max_rowid t with
  | None => 1
  | Some m => m + 1
  end.

(** The rowid b-tree keeps the rows ordered by id. *)
Fixpoint insert_row (r : Todo) (t : Table) : Table :=
  match t with
  | [] => [r]
  | x :: t' => if id r <? id x then r :: t else x :: insert_row r t'
  end.

(** [INSERT INTO todo (title, completed) VALUES (?, ?)] *)
Definition sql_insert (ttl : option string) (c : option bool) (t : Table) : Table :=
  insert_row (mkTodo (new_rowid t) ttl c) t.

(** [UPDATE todo SET completed=? WHERE todo.id = ?] *)
Definition sql_update_completed (pk : Z) (c : bool) (t : Table) : Table :=
  map (fun r => if id r =? pk then mkTodo (id r) (title r) (Some c) else r) t.

(** [DELETE FROM todo WHERE todo.id = ?] *)
Definition sql_delete (pk : Z) (t : Table) : Table :=
  filter (fun r => negb (id r =? pk)) t.

(** [SELECT ... FROM todo WHERE todo.id = ? LIMIT 1] *)
Definition select_first_by_id (pk : Z) (t : Table) : option Todo :=
  find (fun r => id r =? pk) t.

(** ** The session

    [db.session] collects changes and writes them at [commit]. *)

Inductive Change : Type :=
| New (ttl : option string) (c : option bool)
| Dirty (pk : Z) (c : bool)
| Removed (pk : Z).

Definition apply_change (t : Table) (ch : Change) : Table :=
  match ch with
  | New ttl c => sql_insert ttl c t
  | Dirty pk c => sql_update_completed pk c t
  | Removed pk => sql_delete pk t
  end.

Record Session : Type := mkSession {
  rows : Table;
  pending : list Change
}.

Inductive Exn : Type :=
| AttributeError
| UnmappedInstanceError
| OverflowError
| BuildError.

(** A view function runs against the session and either returns a value
    or raises; the session is threaded through both outcomes. *)
Definition Handler (A : Type) : Type := Session -> (Exn + A) * Session.

Definition ret {A : Type} (a : A) : Handler A :=
  fun s => (inr a, s).

Definition raise {A : Type} (e : Exn) : Handler A :=
  fun s => (inl e, s).

Definition bind {A B : Type} (m : Handler A) (k : A -> Handler B) : Handler B :=
  fun s =>
    match m s with
    | (inl e, s') => (inl e, s')
    | (inr a, s') => k a s'
    end.

Notation "x <- m ;; k" := (bind m (fun x => k))
  (at level 61, m at next level, right associativity).
Notation "m ;;; k" := (bind m (fun _ => k))
  (at level 61, right associativity).

(** [Todo.query.all()] *)
Definition query_all : Handler (list Todo) :=
  fun s => (inr (rows s), s).

(** The integers the driver can bind as a parameter of a statement. *)
Definition fits_int64 (n : Z) : bool :=
  (- 2 ^ 63 <=? n) && (n <? 2 ^ 63).

(** [Todo.query.filter_by(id=pk).first()]. The driver refuses a [pk]
    outside 64 bits with [OverflowError]. The ids in the table are kept
    unbounded here, so the refusal is modelled for a [pk] that names no
    row: on a table whose ids fit 64 bits, as the engine's always do,
    this is the check made before the statement runs
    ([lookup_checks_range_first]). *)
Definition query_filter_by_id_first (pk : Z) : Handler (option Todo) :=
  fun s =>
    match select_first_by_id pk (rows s) with
    | Some r => (inr (Some r), s)
    | None => if fits_int64 pk then (inr None, s) else (inl OverflowError, s)
    end.

(** [db.session.add(Todo(title=ttl, completed=c))]: the object has no id
    until it is flushed. *)
Definition session_add (ttl : option string) (c : option bool) : Handler unit :=
  fun s => (inr tt, mkSession (rows s) (pending s ++ [New ttl c])).

(** [db.session.delete(obj)] *)
Definition session_delete (obj : option Todo) : Handler unit :=
  match obj with
  | None => raise UnmappedInstanceError
  | Some r => fun s => (inr tt, mkSession (rows s) (pending s ++ [Removed (id r)]))
  end.

(** [db.session.commit()] *)
Definition session_commit : Handler unit :=
  fun s => (inr tt, mkSession (fold_left apply_change (pending s) (rows s)) []).

(** [obj.completed], read. *)
Definition get_completed (obj : option Todo) : Handler (option bool) :=
  match obj with
  | None => raise AttributeError
  | Some r => ret (completed r)
  end.

(** [obj.completed = c] *)
Definition set_completed (obj : option Todo) (c : bool) : Handler unit :=
  match obj with
  | None => raise AttributeError
  | Some r => fun s => (inr tt, mkSession (rows s) (pending s ++ [Dirty (id r) c]))
  end.

(** Python's [not] on a nullable boolean: [None] is falsy. *)
Definition py_not (v : option bool) : bool :=
  match v with
  | Some b => negb b
  | None => true
  end.

(** ** Requests and responses *)

(** [request.form]: the fields of the posted form, in order. *)
Definition Form : Type := list (string * string).

(** [request.form.get(key)] *)
Fixpoint form_get (key : string) (form : Form) : option string :=
  match form with
  | [] => None
  | (k, v) :: rest => if String.eqb k key then Some v else form_get key rest
  end.

Inductive Response : Type :=
| Text (body : string)
| Rendered (template : string) (todos : list Todo)
| Redirect (location : string)
| NotFound
| InternalServerError (e : Exn).

Definition status_code (r : Response) : Z :=
  match r with
  | Text _ => 200
  | Rendered _ _ => 200
  | Redirect _ => 302
  | NotFound => 404
  | InternalServerError _ => 500
  end.

(** The rules registered by [@app.route] that take no argument. *)
Definition url_map : list (string * string) :=
  [ ("say_hello", "/");
    ("get_tasks", "/todos");
    ("create", "/todos/create") ].

Definition url_for (endpoint : string) : Handler string :=
  match form_get endpoint url_map with
  | Some path => ret path
  | None => raise BuildError
  end.

Definition redirect (location : string) : Response := Redirect location.

Definition render_template (name : string) (todos : list Todo) : Response :=
  Rendered name todos.

(** ** The view functions *)

Definition say_hello : Handler Response :=
  ret (Text "Hello, World!").

Definition get_tasks : Handler Response :=
  todos <- query_all ;;
  ret (render_template "base.html" todos).

Definition create (form : Form) : Handler Response :=
  let ttl := form_get "title" form in
  session_add ttl (Some false) ;;;
  session_commit ;;;
  loc <- url_for "get_tasks" ;;
  ret (redirect loc).

Definition update (pk : Z) : Handler Response :=
  todo <- query_filter_by_id_first pk ;;
  c <- get_completed todo ;;
  set_completed todo (py_not c) ;;;
  session_commit ;;;
  loc <- url_for "get_tasks" ;;
  ret (redirect loc).

Definition delete (pk : Z) : Handler Response :=
  todo <- query_filter_by_id_first pk ;;
  session_delete todo ;;;
  session_commit ;;;
  loc <- url_for "get_tasks" ;;
  ret (redirect loc).

(** ** The request cycle *)

(** The requests for the five rules; [GetUpdate n] and [GetDelete n]
    carry the number written in the last segment of the URL. *)
Inductive Request : Type :=
| GetRoot
| GetTodos
| PostCreate (form : Form)
| GetUpdate (n : Z)
| GetDelete (n : Z).

(** The converter of [<int:id>]: a segment of digits gives its value, a
    negative number is no match. *)
Definition int_converter (n : Z) : option Z :=
  if n <? 0 then None else Some n.

(** The answer to a URL that matches no rule. *)
Definition not_found : Handler Response := ret NotFound.

Definition dispatch (req : Request) : Handler Response :=
  match req with
  | GetRoot => say_hello
  | GetTodos => get_tasks
  | PostCreate form => create form
  | GetUpdate n =>
      match int_converter n with
      | Some pk => update pk
      | None => not_found
      end
  | GetDelete n =>
      match int_converter n with
      | Some pk => delete pk
      | None => not_found
      end
  end.

(** One request: a fresh session over the stored table, the view
    function, and the teardown that drops what was not committed. *)
Definition handle (req : Request) (t : Table) : Response * Table :=
  match dispatch req (mkSession t []) with
  | (inr resp, s) => (resp, rows s)
  | (inl e, s) => (InternalServerError e, rows s)
  end.

(** A sequence of requests, served one after the other. *)
Definition serve (reqs : list Request) (t : Table) : Table :=
  fold_left (fun acc req => snd (handle req acc)) reqs t.

(** The stores the application can be in: [db.create_all()] makes the
    table empty, and only requests change it. *)
Definition reachable (t : Table) : Prop :=
  exists reqs : list Request, serve reqs [] = t.

(** The invariant of the table: the primary key is unique, and every
    completion flag is set. *)
Definition table_inv (t : Table) : Prop :=
  NoDup (ids t) /\ Forall (fun r => exists b : bool, completed r = Some b) t.

(** ** Readings of the specification that the code is compared with *)

(** "An id once assigned is never reused": whenever a todo with id [i]
    was in the store and is deleted, no record made by a later create
    carries [i]. *)
Definition id_never_reused : Prop :=
  forall (before after : list Request) (i : Z) (form : Form),
    In i (ids (serve before [])) ->
    let t := serve (before ++ GetDelete i :: after) [] in
    forall r : Todo,
      In r (snd (handle (PostCreate form) t)) -> ~ In r t -> id r <> i.

(** "For every id not in the store, update and delete end in an
    unhandled error, not in a redirect and not in a 404." *)
Definition unknown_id_always_crashes : Prop :=
  forall (pk : Z) (t : Table),
    ~ In pk (ids t) ->
    status_code (fst (handle (GetUpdate pk) t)) = 500
    /\ status_code (fst (handle (GetDelete pk) t)) = 500.

(** "Every persisted todo has a title that is a string, also when the
    create request carried no title field." *)
Definition title_always_string : Prop :=
  forall t : Table, reachable t ->
    Forall (fun r => exists s : string, title r = Some s) t.

(** ** The printed form of a todo *)

(** What [str.format] puts in place of a nullable string. *)
Definition py_str (v : option string) : string :=
  match v with
  | Some s => s
  | None => "None"
  end.

(** [Todo.__repr__]: ["<Title: {}>".format(self.title)] *)
Definition Todo_repr (r : Todo) : string :=
  String.append "<Title: " (String.append (py_str (title r)) ">").

(** ** Counting the requests of a history *)

(** How many create requests a history holds. *)
Fixpoint creates (reqs : list Request) : Z :=
  match reqs with
  | [] => 0
  | PostCreate _ :: rest => 1 + creates rest
  | _ :: rest => creates rest
  end.

(** How many update requests for the id [pk] a history holds. *)
Fixpoint toggles (pk : Z) (reqs : list Request) : nat :=
  match reqs with
  | [] => O
  | GetUpdate pk' :: rest =>
      if pk' =? pk then S (toggles pk rest) else toggles pk rest
  | _ :: rest => toggles pk rest
  end.

Example handle_create_run :
  handle (PostCreate [("title", "Buy milk")]) [] =
  (Redirect "/todos", [mkTodo 1 (Some "Buy milk") (Some false)]).
Proof. reflexivity. Qed.

Example serve_run :
  serve [PostCreate [("title", "a")]; PostCreate [("title", "b")];
         GetUpdate 2; GetDelete 1; GetDelete 7; PostCreate []] [] =
  [mkTodo 2 (Some "b") (Some true); mkTodo 3 None (Some false)].
Proof. reflexivity. Qed.

(** ** One request, handler by handler *)

(** Runs a view function up to its lookup, whose outcome [H] states. *)
Ltac run_view H :=
  unfold update, delete, bind, query_filter_by_id_first;
  simpl; rewrite H; try reflexivity;
  match goal with
  | |- context [fits_int64 ?pk] => destruct (fits_int64 pk); reflexivity
  end.

Lemma handle_say_hello (t : Table) :
  handle GetRoot t = (Text "Hello, World!", t).
Proof. reflexivity. Qed.

Lemma handle_get_tasks (t : Table) :
  handle GetTodos t = (Rendered "base.html" t, t).
Proof. reflexivity. Qed.

Lemma handle_create (form : Form) (t : Table) :
  handle (PostCreate form) t =
  (Redirect "/todos", sql_insert (form_get "title" form) (Some false) t).
Proof. reflexivity. Qed.

Lemma converter_match (n : Z) : 0 <= n -> int_converter n = Some n.
Proof.
  intros Hn. unfold int_converter.
  destruct (Z.ltb_spec n 0); [lia | reflexivity].
Qed.

Lemma converter_no_match (n : Z) : n < 0 -> int_converter n = None.
Proof.
  intros Hn. unfold int_converter.
  destruct (Z.ltb_spec n 0); [reflexivity | lia].
Qed.

Lemma update_found (pk : Z) (t : Table) (r : Todo) :
  select_first_by_id pk t = Some r ->
  update pk (mkSession t []) =
  (inr (Redirect "/todos"),
   mkSession (sql_update_completed (id r) (py_not (completed r)) t) []).
Proof. intros Hsel. run_view Hsel. Qed.

Lemma update_missing (pk : Z) (t : Table) :
  select_first_by_id pk t = None ->
  update pk (mkSession t []) =
  (inl (if fits_int64 pk then AttributeError else OverflowError),
   mkSession t []).
Proof. intros Hsel. run_view Hsel. Qed.

Lemma delete_found (pk : Z) (t : Table) (r : Todo) :
  select_first_by_id pk t = Some r ->
  delete pk (mkSession t []) =
  (inr (Redirect "/todos"), mkSession (sql_delete (id r) t) []).
Proof. intros Hsel. run_view Hsel. Qed.

Lemma delete_missing (pk : Z) (t : Table) :
  select_first_by_id pk t = None ->
  delete pk (mkSession t []) =
  (inl (if fits_int64 pk then UnmappedInstanceError else OverflowError),
   mkSession t []).
Proof. intros Hsel. run_view Hsel. Qed.

Lemma handle_update_found (pk : Z) (t : Table) (r : Todo) :
  select_first_by_id pk t = Some r -> 0 <= pk ->
  handle (GetUpdate pk) t =
  (Redirect "/todos", sql_update_completed (id r) (py_not (completed r)) t).
Proof.
  intros Hsel Hpk. unfold handle, dispatch.
  now rewrite (converter_match pk Hpk), (update_found pk t r Hsel).
Qed.

Lemma handle_update_missing (pk : Z) (t : Table) :
  select_first_by_id pk t = None -> 0 <= pk ->
  handle (GetUpdate pk) t =
  (InternalServerError
     (if fits_int64 pk then AttributeError else OverflowError), t).
Proof.
  intros Hsel Hpk. unfold handle, dispatch.
  now rewrite (converter_match pk Hpk), (update_missing pk t Hsel).
Qed.

Lemma handle_update_no_match (n : Z) (t : Table) :
  n < 0 -> handle (GetUpdate n) t = (NotFound, t).
Proof.
  intros Hn. unfold handle, dispatch.
  now rewrite (converter_no_match n Hn).
Qed.

Lemma handle_delete_found (pk : Z) (t : Table) (r : Todo) :
  select_first_by_id pk t = Some r -> 0 <= pk ->
  handle (GetDelete pk) t = (Redirect "/todos", sql_delete (id r) t).
Proof.
  intros Hsel Hpk. unfold handle, dispatch.
  now rewrite (converter_match pk Hpk), (delete_found pk t r Hsel).
Qed.

Lemma handle_delete_missing (pk : Z) (t : Table) :
  select_first_by_id pk t = None -> 0 <= pk ->
  handle (GetDelete pk) t =
  (InternalServerError
     (if fits_int64 pk then UnmappedInstanceError else OverflowError), t).
Proof.
  intros Hsel Hpk. unfold handle, dispatch.
  now rewrite (converter_match pk Hpk), (delete_missing pk t Hsel).
Qed.

Lemma handle_delete_no_match (n : Z) (t : Table) :
  n < 0 -> handle (GetDelete n) t = (NotFound, t).
Proof.
  intros Hn. unfold handle, dispatch.
  now rewrite (converter_no_match n Hn).
Qed.

(** ** The lookup by primary key *)

Lemma select_some (pk : Z) (t : Table) (r : Todo) :
  select_first_by_id pk t = Some r -> In r t /\ id r = pk.
Proof.
  unfold select_first_by_id. intros Hf.
  apply find_some in Hf. destruct Hf as [Hin Heq].
  split; [assumption | now apply Z.eqb_eq].
Qed.

Lemma select_none (pk : Z) (t : Table) :
  ~ In pk (ids t) -> select_first_by_id pk t = None.
Proof.
  unfold select_first_by_id, ids.
  induction t as [|x t IH]; simpl; intros Hnin.
  - reflexivity.
  - destruct (Z.eqb_spec (id x) pk) as [Heq|Hne].
    + exfalso. apply Hnin. now left.
    + apply IH. intros Hin. apply Hnin. now right.
Qed.

Lemma unique_by_id (t : Table) (x y : Todo) :
  NoDup (ids t) -> In x t -> In y t -> id x = id y -> x = y.
Proof.
  unfold ids. induction t as [|z t IH]; simpl; intros Hnd Hx Hy Heq.
  - contradiction.
  - inversion Hnd as [|? ? Hnin Hnd']; subst.
    destruct Hx as [Hx|Hx], Hy as [Hy|Hy]; subst.
    + reflexivity.
    + exfalso. apply Hnin. rewrite Heq. now apply in_map.
    + exfalso. apply Hnin. rewrite <- Heq. now apply in_map.
    + now apply IH.
Qed.

Lemma select_present (t : Table) (r : Todo) :
  NoDup (ids t) -> In r t -> select_first_by_id (id r) t = Some r.
Proof.
  intros Hnd Hin.
  destruct (select_first_by_id (id r) t) as [x|] eqn:Hsel.
  - apply select_some in Hsel. destruct Hsel as [Hx Hid].
    f_equal. now apply (unique_by_id t).
  - exfalso. unfold select_first_by_id in Hsel.
    apply (find_none _ _ Hsel) in Hin. now rewrite Z.eqb_refl in Hin.
Qed.

(** ** Allocation of the primary key *)

Lemma max_rowid_bound (t : Table) (x : Todo) :
  In x t -> exists m : Z, max_rowid t = Some m /\ id x <= m.
Proof.
  induction t as [|y t IH]; simpl; intros Hin.
  - contradiction.
  - destruct Hin as [Heq|Hin].
    + subst y. destruct (max_rowid t) as [m|]; eexists; split;
        try reflexivity; lia.
    + destruct (IH Hin) as [m [Hm Hle]]. rewrite Hm.
      eexists; split; [reflexivity | lia].
Qed.

Lemma new_rowid_above (t : Table) (x : Todo) :
  In x t -> id x < new_rowid t.
Proof.
  intros Hin. unfold new_rowid.
  destruct (max_rowid_bound t x Hin) as [m [Hm Hle]]. rewrite Hm. lia.
Qed.

Lemma new_rowid_fresh (t : Table) : ~ In (new_rowid t) (ids t).
Proof.
  unfold ids. intros Hin. apply in_map_iff in Hin.
  destruct Hin as [x [Heq Hin]]. apply new_rowid_above in Hin. lia.
Qed.

Lemma insert_row_last (r : Todo) (t : Table) :
  (forall x : Todo, In x t -> id x < id r) -> insert_row r t = t ++ [r].
Proof.
  induction t as [|y t IH]; simpl; intros Hlt.
  - reflexivity.
  - destruct (Z.ltb_spec (id r) (id y)) as [Hlt'|Hge].
    + specialize (Hlt y (or_introl eq_refl)). lia.
    + f_equal. apply IH. intros x Hx. apply Hlt. now right.
Qed.

Lemma sql_insert_appends (ttl : option string) (c : option bool) (t : Table) :
  sql_insert ttl c t = t ++ [mkTodo (new_rowid t) ttl c].
Proof.
  unfold sql_insert. apply insert_row_last.
  intros x Hx. simpl. now apply new_rowid_above.
Qed.

(** ** The three statements on the table *)

Lemma ids_update (pk : Z) (c : bool) (t : Table) :
  ids (sql_update_completed pk c t) = ids t.
Proof.
  unfold ids, sql_update_completed. rewrite map_map.
  apply map_ext. intros x. now destruct (id x =? pk).
Qed.

Lemma sql_delete_absent (pk : Z) (t : Table) :
  ~ In pk (ids t) -> sql_delete pk t = t.
Proof.
  unfold sql_delete, ids. induction t as [|x t IH]; simpl; intros Hnin.
  - reflexivity.
  - destruct (Z.eqb_spec (id x) pk) as [Heq|Hne]; simpl.
    + exfalso. apply Hnin. now left.
    + f_equal. apply IH. intros Hin. apply Hnin. now right.
Qed.

Lemma sql_delete_incl (pk : Z) (t : Table) (x : Todo) :
  In x (sql_delete pk t) -> In x t /\ id x <> pk.
Proof.
  unfold sql_delete. intros Hin. apply filter_In in Hin.
  destruct Hin as [Hin Hne]. split; [assumption|].
  intros Heq. apply Z.eqb_eq in Heq. rewrite Heq in Hne. discriminate.
Qed.

Lemma NoDup_ids_delete (pk : Z) (t : Table) :
  NoDup (ids t) -> NoDup (ids (sql_delete pk t)).
Proof.
  unfold ids. induction t as [|x t IH]; simpl; intros Hnd.
  - constructor.
  - inversion Hnd as [|? ? Hnin Hnd']; subst.
    destruct (id x =? pk); simpl.
    + now apply IH.
    + constructor; [|now apply IH].
      intros Hin. apply in_map_iff in Hin. destruct Hin as [y [Hy Hin]].
      apply sql_delete_incl in Hin. apply Hnin. rewrite <- Hy.
      apply in_map. tauto.
Qed.

Lemma sql_delete_split (t : Table) (r : Todo) :
  NoDup (ids t) -> In r t ->
  exists l1 l2 : Table,
    t = l1 ++ r :: l2 /\ sql_delete (id r) t = l1 ++ l2 /\ ~ In r (l1 ++ l2).
Proof.
  intros Hnd Hin.
  destruct (in_split r t Hin) as [l1 [l2 Ht]]. exists l1, l2.
  subst t. unfold ids in Hnd. rewrite map_app in Hnd. simpl in Hnd.
  assert (Hnin : ~ In (id r) (map id l1 ++ map id l2))
    by now apply NoDup_remove_2.
  assert (Hn1 : ~ In (id r) (ids l1))
    by (intros H; apply Hnin, in_or_app; now left).
  assert (Hn2 : ~ In (id r) (ids l2))
    by (intros H; apply Hnin, in_or_app; now right).
  split; [reflexivity|]. split.
  - unfold sql_delete. rewrite filter_app. simpl. rewrite Z.eqb_refl. simpl.
    fold (sql_delete (id r) l1). fold (sql_delete (id r) l2).
    now rewrite !sql_delete_absent.
  - intros H. apply Hnin. rewrite <- map_app. now apply in_map.
Qed.

Lemma toggle_twice (t : Table) (r : Todo) (b : bool) :
  NoDup (ids t) -> In r t -> completed r = Some b ->
  sql_update_completed (id r) b (sql_update_completed (id r) (negb b) t) = t.
Proof.
  intros Hnd Hin Hc. unfold sql_update_completed. rewrite map_map.
  rewrite <- (map_id t) at 2. apply map_ext_in. intros x Hx.
  destruct (Z.eqb_spec (id x) (id r)) as [Heq|Hne]; simpl.
  - rewrite Heq, Z.eqb_refl.
    assert (x = r) by now apply (unique_by_id t).
    subst x. destruct r as [i ttl c]. simpl in *. now subst c.
  - destruct (Z.eqb_spec (id x) (id r)); [contradiction | reflexivity].
Qed.

(** ** The invariant of the table *)

Lemma table_inv_nil : table_inv [].
Proof. split; constructor. Qed.

Lemma table_inv_insert (ttl : option string) (b : bool) (t : Table) :
  table_inv t -> table_inv (sql_insert ttl (Some b) t).
Proof.
  intros [Hnd Hc]. rewrite sql_insert_appends. split.
  - unfold ids. rewrite map_app. simpl.
    apply NoDup_incl_NoDup with (l := new_rowid t :: map id t).
    + constructor; [apply new_rowid_fresh | assumption].
    + rewrite length_app. simpl. lia.
    + intros z Hz. apply in_or_app. simpl in *. tauto.
  - apply Forall_app. split; [assumption|].
    constructor; [|constructor]. now exists b.
Qed.

Lemma table_inv_update (pk : Z) (c : bool) (t : Table) :
  table_inv t -> table_inv (sql_update_completed pk c t).
Proof.
  intros [Hnd Hc]. split.
  - now rewrite ids_update.
  - unfold sql_update_completed. apply Forall_map.
    revert Hc. apply Forall_impl. intros x Hx.
    destruct (id x =? pk); [now exists c | assumption].
Qed.

Lemma table_inv_delete (pk : Z) (t : Table) :
  table_inv t -> table_inv (sql_delete pk t).
Proof.
  intros [Hnd Hc]. split.
  - now apply NoDup_ids_delete.
  - apply Forall_forall. intros x Hx. apply sql_delete_incl in Hx.
    rewrite Forall_forall in Hc. apply Hc. tauto.
Qed.

Lemma handle_inv (req : Request) (t : Table) :
  table_inv t -> table_inv (snd (handle req t)).
Proof.
  intros Hinv. destruct req as [| |form|pk|pk].
  - assumption.
  - assumption.
  - rewrite handle_create. now apply table_inv_insert.
  - destruct (Z.ltb_spec pk 0) as [Hneg|Hpos].
    + now rewrite (handle_update_no_match pk t Hneg).
    + destruct (select_first_by_id pk t) as [r|] eqn:Hsel.
      * rewrite (handle_update_found _ _ _ Hsel Hpos).
        now apply table_inv_update.
      * now rewrite (handle_update_missing _ _ Hsel Hpos).
  - destruct (Z.ltb_spec pk 0) as [Hneg|Hpos].
    + now rewrite (handle_delete_no_match pk t Hneg).
    + destruct (select_first_by_id pk t) as [r|] eqn:Hsel.
      * rewrite (handle_delete_found _ _ _ Hsel Hpos).
        now apply table_inv_delete.
      * now rewrite (handle_delete_missing _ _ Hsel Hpos).
Qed.

Lemma serve_inv (reqs : list Request) (t : Table) :
  table_inv t -> table_inv (serve reqs t).
Proof.
  revert t. induction reqs as [|req reqs IH]; simpl; intros t Hinv.
  - assumption.
  - apply IH. now apply handle_inv.
Qed.

Lemma reachable_inv (t : Table) : reachable t -> table_inv t.
Proof.
  intros [reqs Hreqs]. subst t. apply serve_inv, table_inv_nil.
Qed.

Lemma serve_app (a b : list Request) (t : Table) :
  serve (a ++ b) t = serve b (serve a t).
Proof. unfold serve. apply fold_left_app. Qed.

Lemma reachable_step (req : Request) (t : Table) :
  reachable t -> reachable (snd (handle req t)).
Proof.
  intros [reqs Hreqs]. exists (reqs ++ [req]).
  rewrite serve_app, Hreqs. reflexivity.
Qed.

Lemma Forall2_map_self (A : Type) (P : A -> A -> Prop) (f : A -> A) (l : list A) :
  (forall x : A, In x l -> P x (f x)) -> Forall2 P l (map f l).
Proof.
  induction l as [|a l IH]; simpl; intros HP.
  - constructor.
  - constructor.
    + apply HP. now left.
    + apply IH. intros x Hx. apply HP. now right.
Qed.

(** ** The lookup after a request *)

Lemma select_in_ids (pk : Z) (t : Table) (r : Todo) :
  select_first_by_id pk t = Some r -> In pk (ids t).
Proof.
  intros Hsel. apply select_some in Hsel. destruct Hsel as [Hin Hid].
  subst pk. unfold ids. now apply in_map.
Qed.

Lemma select_none_absent (pk : Z) (t : Table) :
  select_first_by_id pk t = None -> ~ In pk (ids t).
Proof.
  unfold select_first_by_id, ids. intros Hsel Hin.
  apply in_map_iff in Hin. destruct Hin as [x [Hid Hin]].
  apply (find_none _ _ Hsel) in Hin. subst pk.
  now rewrite Z.eqb_refl in Hin.
Qed.

Lemma select_app_found (pk : Z) (t u : Table) (r : Todo) :
  select_first_by_id pk t = Some r -> select_first_by_id pk (t ++ u) = Some r.
Proof.
  unfold select_first_by_id. induction t as [|x t IH]; simpl.
  - discriminate.
  - destruct (id x =? pk); [trivial | exact IH].
Qed.

Lemma select_app_absent (pk : Z) (t u : Table) :
  select_first_by_id pk t = None ->
  select_first_by_id pk (t ++ u) = select_first_by_id pk u.
Proof.
  unfold select_first_by_id. induction t as [|x t IH]; simpl.
  - reflexivity.
  - destruct (id x =? pk); [discriminate | exact IH].
Qed.

Lemma select_update_same (pk : Z) (c : bool) (t : Table) (r : Todo) :
  select_first_by_id pk t = Some r ->
  select_first_by_id pk (sql_update_completed pk c t) =
  Some (mkTodo (id r) (title r) (Some c)).
Proof.
  unfold select_first_by_id, sql_update_completed.
  induction t as [|x t IH]; simpl.
  - discriminate.
  - destruct (Z.eqb_spec (id x) pk) as [Heq|Hne]; simpl.
    + intros Hx. injection Hx as Hx. subst x.
      rewrite Heq, Z.eqb_refl. reflexivity.
    + destruct (Z.eqb_spec (id x) pk); [contradiction | exact IH].
Qed.

Lemma select_update_other (pk pk' : Z) (c : bool) (t : Table) :
  pk' <> pk ->
  select_first_by_id pk (sql_update_completed pk' c t) =
  select_first_by_id pk t.
Proof.
  intros Hne. unfold select_first_by_id, sql_update_completed.
  induction t as [|x t IH]; simpl.
  - reflexivity.
  - destruct (Z.eqb_spec (id x) pk') as [Heq'|Hne']; simpl.
    + destruct (Z.eqb_spec (id x) pk) as [Heq|_]; [congruence | exact IH].
    + destruct (id x =? pk); [reflexivity | exact IH].
Qed.

Lemma select_delete_other (pk pk' : Z) (t : Table) :
  pk' <> pk ->
  select_first_by_id pk (sql_delete pk' t) = select_first_by_id pk t.
Proof.
  intros Hne. unfold select_first_by_id, sql_delete.
  induction t as [|x t IH]; simpl.
  - reflexivity.
  - destruct (Z.eqb_spec (id x) pk') as [Heq'|Hne']; simpl.
    + destruct (Z.eqb_spec (id x) pk) as [Heq|_]; [congruence | exact IH].
    + destruct (id x =? pk); [reflexivity | exact IH].
Qed.

Lemma select_delete_same (pk : Z) (t : Table) :
  select_first_by_id pk (sql_delete pk t) = None.
Proof.
  apply select_none. intros Hin. unfold ids in Hin.
  apply in_map_iff in Hin. destruct Hin as [x [Hid Hin]].
  apply sql_delete_incl in Hin. tauto.
Qed.

(** What each route leaves in the store, found or not. *)
Lemma store_after_create (form : Form) (t : Table) :
  snd (handle (PostCreate form) t) =
  t ++ [mkTodo (new_rowid t) (form_get "title" form) (Some false)].
Proof. rewrite handle_create. simpl. apply sql_insert_appends. Qed.

Lemma store_after_update (pk : Z) (t : Table) :
  snd (handle (GetUpdate pk) t) =
  if pk <? 0 then t
  else match select_first_by_id pk t with
       | Some r => sql_update_completed pk (py_not (completed r)) t
       | None => t
       end.
Proof.
  destruct (Z.ltb_spec pk 0) as [Hneg|Hpos].
  - now rewrite (handle_update_no_match pk t Hneg).
  - destruct (select_first_by_id pk t) as [r|] eqn:Hsel.
    + rewrite (handle_update_found _ _ _ Hsel Hpos). simpl.
      apply select_some in Hsel. destruct Hsel as [_ Hid]. now rewrite Hid.
    + now rewrite (handle_update_missing _ _ Hsel Hpos).
Qed.

Lemma store_after_delete (pk : Z) (t : Table) :
  snd (handle (GetDelete pk) t) = if pk <? 0 then t else sql_delete pk t.
Proof.
  destruct (Z.ltb_spec pk 0) as [Hneg|Hpos].
  - now rewrite (handle_delete_no_match pk t Hneg).
  - destruct (select_first_by_id pk t) as [r|] eqn:Hsel.
    + rewrite (handle_delete_found _ _ _ Hsel Hpos). simpl.
      apply select_some in Hsel. destruct Hsel as [_ Hid]. now rewrite Hid.
    + rewrite (handle_delete_missing _ _ Hsel Hpos). simpl.
      symmetry. apply sql_delete_absent. now apply select_none_absent.
Qed.

Lemma serve_cons (req : Request) (reqs : list Request) (t : Table) :
  serve (req :: reqs) t = serve reqs (snd (handle req t)).
Proof. reflexivity. Qed.

Lemma serve_nil (t : Table) : serve [] t = t.
Proof. reflexivity. Qed.

Lemma select_after_request (pk : Z) (req : Request) (t : Table) (r : Todo) :
  select_first_by_id pk t = Some r -> req <> GetDelete pk ->
  select_first_by_id pk (snd (handle req t)) =
  Some (match req with
        | GetUpdate pk' =>
            if (pk' =? pk) && (0 <=? pk)
            then mkTodo (id r) (title r) (Some (py_not (completed r)))
            else r
        | _ => r
        end).
Proof.
  intros Hsel Hreq. destruct req as [| |form|pk'|pk'].
  - exact Hsel.
  - exact Hsel.
  - rewrite store_after_create. now apply select_app_found.
  - rewrite store_after_update.
    destruct (Z.eqb_spec pk' pk) as [Heq|Hne]; simpl.
    + subst pk'. rewrite Z.leb_antisym.
      destruct (pk <? 0); simpl; [exact Hsel|].
      rewrite Hsel. now apply select_update_same.
    + destruct (pk' <? 0); [exact Hsel|].
      destruct (select_first_by_id pk' t);
        [now rewrite select_update_other | exact Hsel].
  - rewrite store_after_delete. destruct (pk' <? 0); [exact Hsel|].
    rewrite select_delete_other; [exact Hsel|].
    intros Heq. apply Hreq. now rewrite Heq.
Qed.

Lemma eta_completed (r : Todo) (b : bool) :
  completed r = Some b -> mkTodo (id r) (title r) (Some b) = r.
Proof. destruct r as [i ttl c]. simpl. intros Hc. now subst c. Qed.

Lemma update_update_swap (i j : Z) (a b : bool) (t : Table) :
  i <> j ->
  sql_update_completed i a (sql_update_completed j b t) =
  sql_update_completed j b (sql_update_completed i a t).
Proof.
  intros Hne. unfold sql_update_completed. rewrite !map_map.
  apply map_ext. intros x.
  destruct (id x =? j) eqn:Hj; destruct (id x =? i) eqn:Hi; simpl;
    rewrite ?Hj, ?Hi; try reflexivity.
  apply Z.eqb_eq in Hj, Hi. congruence.
Qed.

Lemma delete_delete_swap (i j : Z) (t : Table) :
  sql_delete i (sql_delete j t) = sql_delete j (sql_delete i t).
Proof.
  unfold sql_delete. induction t as [|x t IH]; simpl.
  - reflexivity.
  - destruct (id x =? j) eqn:Hj; destruct (id x =? i) eqn:Hi; simpl;
      rewrite ?Hj, ?Hi; simpl; now rewrite IH.
Qed.

Lemma update_delete_swap (i j : Z) (a : bool) (t : Table) :
  sql_update_completed i a (sql_delete j t) =
  sql_delete j (sql_update_completed i a t).
Proof.
  unfold sql_update_completed, sql_delete. induction t as [|x t IH]; simpl.
  - reflexivity.
  - destruct (id x =? i) eqn:Hi; destruct (id x =? j) eqn:Hj; simpl;
      rewrite ?Hi, ?Hj; simpl; now rewrite IH.
Qed.

Lemma form_get_skip (key : string) (pre post : Form) :
  (forall kv : string * string, In kv pre -> fst kv <> key) ->
  form_get key (pre ++ post) = form_get key post.
Proof.
  induction pre as [|[k v] pre IH]; simpl; intros Hpre.
  - reflexivity.
  - destruct (String.eqb_spec k key) as [Heq|Hne].
    + exfalso. now apply (Hpre (k, v)); [left|].
    + apply IH. intros kv Hkv. apply Hpre. now right.
Qed.

(** ** Order and range of the ids *)

Lemma sorted_snoc (l : list Z) (a : Z) :
  StronglySorted Z.lt l -> (forall x : Z, In x l -> x < a) ->
  StronglySorted Z.lt (l ++ [a]).
Proof.
  induction l as [|y l IH]; simpl; intros Hs Hlt.
  - constructor; constructor.
  - inversion Hs as [|? ? Hs' Hall]; subst. constructor.
    + apply IH; [assumption|]. intros x Hx. apply Hlt. now right.
    + apply Forall_app. split; [assumption|].
      constructor; [|constructor]. apply Hlt. now left.
Qed.

Lemma sorted_delete (pk : Z) (t : Table) :
  StronglySorted Z.lt (ids t) -> StronglySorted Z.lt (ids (sql_delete pk t)).
Proof.
  unfold ids. induction t as [|x t IH]; simpl; intros Hs.
  - constructor.
  - inversion Hs as [|? ? Hs' Hall]; subst.
    destruct (id x =? pk); simpl; [now apply IH|].
    constructor; [now apply IH|].
    apply Forall_forall. intros z Hz. apply in_map_iff in Hz.
    destruct Hz as [y [Hy Hin]]. apply sql_delete_incl in Hin.
    rewrite Forall_forall in Hall. apply Hall. rewrite <- Hy.
    apply in_map. tauto.
Qed.

Lemma handle_sorted (req : Request) (t : Table) :
  StronglySorted Z.lt (ids t) ->
  StronglySorted Z.lt (ids (snd (handle req t))).
Proof.
  intros Hs. destruct req as [| |form|pk|pk].
  - exact Hs.
  - exact Hs.
  - rewrite store_after_create. unfold ids. rewrite map_app. simpl.
    apply sorted_snoc; [exact Hs|]. intros z Hz.
    apply in_map_iff in Hz. destruct Hz as [y [Hy Hin]]. subst z.
    now apply new_rowid_above.
  - rewrite store_after_update. destruct (pk <? 0); [exact Hs|].
    destruct (select_first_by_id pk t); [now rewrite ids_update | exact Hs].
  - rewrite store_after_delete. destruct (pk <? 0); [exact Hs|].
    now apply sorted_delete.
Qed.

Lemma max_rowid_in (t : Table) (m : Z) :
  max_rowid t = Some m -> exists x : Todo, In x t /\ id x = m.
Proof.
  revert m. induction t as [|y t IH]; simpl; intros m Hm.
  - discriminate.
  - destruct (max_rowid t) as [m'|].
    + injection Hm as Hm. destruct (IH m' eq_refl) as [x [Hin Hx]].
      destruct (Z.max_spec (id y) m') as [[_ Hmax]|[_ Hmax]];
        rewrite Hmax in Hm.
      * exists x. split; [now right | congruence].
      * exists y. split; [now left | congruence].
    + injection Hm as Hm. exists y. split; [now left | assumption].
Qed.

Lemma new_rowid_bounds (t : Table) (n : Z) :
  0 <= n -> (forall r : Todo, In r t -> 1 <= id r <= n) ->
  1 <= new_rowid t <= n + 1.
Proof.
  intros Hn Hb. unfold new_rowid.
  destruct (max_rowid t) as [m|] eqn:Hm; [|lia].
  destruct (max_rowid_in t m Hm) as [x [Hin Hx]].
  specialize (Hb x Hin). lia.
Qed.

Lemma serve_ids_bounded (reqs : list Request) (t : Table) (n : Z) :
  0 <= n -> (forall r : Todo, In r t -> 1 <= id r <= n) ->
  forall r : Todo, In r (serve reqs t) -> 1 <= id r <= n + creates reqs.
Proof.
  revert t n. induction reqs as [|req reqs IH]; intros t n Hn Hb r Hr.
  - simpl in *. specialize (Hb r Hr). lia.
  - rewrite serve_cons in Hr.
    destruct req as [| |form|pk|pk]; cbn [creates].
    + exact (IH _ n Hn Hb r Hr).
    + exact (IH _ n Hn Hb r Hr).
    + rewrite store_after_create in Hr.
      assert (Hb' : forall x : Todo,
                 In x (t ++ [mkTodo (new_rowid t) (form_get "title" form)
                               (Some false)]) -> 1 <= id x <= n + 1).
      { intros x Hx. apply in_app_or in Hx. destruct Hx as [Hx|[Hx|[]]].
        - specialize (Hb x Hx). lia.
        - subst x. simpl. now apply new_rowid_bounds. }
      assert (Hn' : 0 <= n + 1) by lia.
      specialize (IH _ (n + 1) Hn' Hb' r Hr). lia.
    + rewrite store_after_update in Hr.
      refine (IH _ n Hn _ r Hr). destruct (pk <? 0); [exact Hb|].
      destruct (select_first_by_id pk t) as [r0|]; [|exact Hb].
      intros x Hx. unfold sql_update_completed in Hx.
      apply in_map_iff in Hx. destruct Hx as [y [Hy Hin]].
      specialize (Hb y Hin). destruct (id y =? pk); subst x; simpl; lia.
    + rewrite store_after_delete in Hr.
      refine (IH _ n Hn _ r Hr). destruct (pk <? 0); [exact Hb|].
      intros x Hx. apply sql_delete_incl in Hx. apply Hb. tauto.
Qed.

Lemma reachable_ids_positive (t : Table) (r : Todo) :
  reachable t -> In r t -> 1 <= id r.
Proof.
  intros [reqs Hreqs] Hin. subst t.
  assert (H0 : (0 <= 0)%Z) by lia.
  assert (Hb : forall x : Todo, In x [] -> 1 <= id x <= 0)
    by (intros x []).
  pose proof (serve_ids_bounded reqs [] 0 H0 Hb r Hin) as H. lia.
Qed.

(** On a table whose ids fit 64 bits the lookup is the range check of
    the driver followed by the statement. *)
Lemma lookup_checks_range_first (pk : Z) (s : Session) :
  Forall (fun r => fits_int64 (id r) = true) (rows s) ->
  query_filter_by_id_first pk s =
  if fits_int64 pk
  then (inr (select_first_by_id pk (rows s)), s)
  else (inl OverflowError, s).
Proof.
  intros Hfit. unfold query_filter_by_id_first.
  destruct (select_first_by_id pk (rows s)) as [r|] eqn:Hsel.
  - apply select_some in Hsel. destruct Hsel as [Hin Hid].
    rewrite Forall_forall in Hfit. specialize (Hfit r Hin).
    rewrite Hid in Hfit. now rewrite Hfit.
  - reflexivity.
Qed.

(** ** Strings and the printed form *)

Lemma string_length_append (s u : string) :
  String.length (String.append s u) =
  (String.length s + String.length u)%nat.
Proof. induction s as [|a s IH]; simpl; [reflexivity | now rewrite IH]. Qed.

Lemma append_cancel_r (s1 s2 u : string) :
  String.append s1 u = String.append s2 u -> s1 = s2.
Proof.
  revert s2. induction s1 as [|a s1 IH]; intros [|b s2]; simpl; intros H.
  - reflexivity.
  - apply (f_equal String.length) in H. simpl in H.
    rewrite string_length_append in H. lia.
  - apply (f_equal String.length) in H. simpl in H.
    rewrite string_length_append in H. lia.
  - injection H as Hab H. subst b. f_equal. now apply IH.
Qed.

Lemma repr_eq_iff (r1 r2 : Todo) :
  Todo_repr r1 = Todo_repr r2 <-> py_str (title r1) = py_str (title r2).
Proof.
  unfold Todo_repr. split.
  - simpl. intros H. repeat (injection H as H). now apply append_cancel_r in H.
  - intros H. now rewrite H.
Qed.

(** ** Properties of the application *)

(** C1: a create request on any store appends one todo whose title is the
    value of the form field [title] and whose completed flag is false,
    commits it and answers with a redirect to the list view; after
    creating "Buy milk" in the empty store the list view shows exactly
    that one record, not completed. *)
Theorem create_persists_and_redirects :
  (forall (form : Form) (t : Table),
     handle (PostCreate form) t =
     (Redirect "/todos",
      t ++ [mkTodo (new_rowid t) (form_get "title" form) (Some false)]))
  /\ fst (handle GetTodos (serve [PostCreate [("title", "Buy milk")]] [])) =
     Rendered "base.html" [mkTodo 1 (Some "Buy milk") (Some false)].
Proof.
  split.
  - intros form t. rewrite handle_create. now rewrite sql_insert_appends.
  - reflexivity.
Qed.

(** C2: for a todo [r] in a store of the application, update answers
    with a redirect and leaves [r] with the negation of its completed
    flag; a second update of the same todo gives back the store as it
    was, so the flag is again the original one. *)
Theorem update_toggles_and_twice_restores (t : Table) (r : Todo) :
  reachable t -> In r t ->
  exists b : bool,
    completed r = Some b
    /\ handle (GetUpdate (id r)) t =
       (Redirect "/todos", sql_update_completed (id r) (negb b) t)
    /\ select_first_by_id (id r) (snd (handle (GetUpdate (id r)) t)) =
       Some (mkTodo (id r) (title r) (Some (negb b)))
    /\ serve [GetUpdate (id r); GetUpdate (id r)] t = t
    /\ select_first_by_id (id r) (serve [GetUpdate (id r); GetUpdate (id r)] t) =
       Some r.
Proof.
  intros Hreach Hin.
  destruct (reachable_inv t Hreach) as [Hnd Hc].
  rewrite Forall_forall in Hc. destruct (Hc r Hin) as [b Hb].
  assert (Hpos : 0 <= id r)
    by (pose proof (reachable_ids_positive t r Hreach Hin); lia).
  pose proof (select_present t r Hnd Hin) as Hsel.
  pose proof (handle_update_found _ _ _ Hsel Hpos) as Hup.
  rewrite Hb in Hup. simpl in Hup.
  set (r' := mkTodo (id r) (title r) (Some (negb b))).
  set (t' := sql_update_completed (id r) (negb b) t) in *.
  assert (Hin' : In r' t').
  { unfold t', sql_update_completed. apply in_map_iff. exists r.
    now rewrite Z.eqb_refl. }
  assert (Hnd' : NoDup (ids t')) by (unfold t'; now rewrite ids_update).
  pose proof (select_present t' r' Hnd' Hin') as Hsel'.
  simpl in Hsel'.
  pose proof (handle_update_found _ _ _ Hsel' Hpos) as Hup'.
  simpl in Hup'. rewrite negb_involutive in Hup'.
  assert (Htwice : serve [GetUpdate (id r); GetUpdate (id r)] t = t).
  { unfold serve. simpl. rewrite Hup. simpl. rewrite Hup'. simpl.
    unfold t'. now apply toggle_twice. }
  exists b. repeat split.
  - assumption.
  - assumption.
  - rewrite Hup. simpl. assumption.
  - assumption.
  - rewrite Htwice. assumption.
Qed.

Lemma update_toggles_and_twice_restores_witness :
  let r := mkTodo 1 (Some "Buy milk") (Some false) in
  reachable [r] /\ In r [r]
  /\ exists b : bool,
       completed r = Some b
       /\ handle (GetUpdate (id r)) [r] =
          (Redirect "/todos", sql_update_completed (id r) (negb b) [r])
       /\ select_first_by_id (id r) (snd (handle (GetUpdate (id r)) [r])) =
          Some (mkTodo (id r) (title r) (Some (negb b)))
       /\ serve [GetUpdate (id r); GetUpdate (id r)] [r] = [r]
       /\ select_first_by_id (id r)
            (serve [GetUpdate (id r); GetUpdate (id r)] [r]) = Some r.
Proof.
  intros r.
  assert (Hreach : reachable [r])
    by (exists [PostCreate [("title", "Buy milk")]]; reflexivity).
  assert (Hin : In r [r]) by (simpl; left; reflexivity).
  split; [exact Hreach|]. split; [exact Hin|].
  exact (update_toggles_and_twice_restores [r] r Hreach Hin).
Defined.

(** C3, as the code has it: for an id from 0 up to 2^63 - 1 that no
    stored todo has, the lookup gives nothing and both update and delete
    end in an unhandled exception, raised when the missing record is
    used, answered with a 500 and neither with the redirect nor with a
    404. Outside that range the failure is another one: a negative id
    matches no route and is answered with a 404 without the view being
    called, and for an id from 2^63 on the lookup itself raises
    [OverflowError], again a 500. *)
Theorem update_delete_unknown_id_crash (pk : Z) (t : Table) :
  ~ In pk (ids t) ->
  (0 <= pk < 2 ^ 63 ->
   select_first_by_id pk t = None
   /\ fst (handle (GetUpdate pk) t) = InternalServerError AttributeError
   /\ fst (handle (GetDelete pk) t) = InternalServerError UnmappedInstanceError
   /\ status_code (fst (handle (GetUpdate pk) t)) = 500
   /\ status_code (fst (handle (GetDelete pk) t)) = 500)
  /\ (pk < 0 ->
      fst (handle (GetUpdate pk) t) = NotFound
      /\ fst (handle (GetDelete pk) t) = NotFound)
  /\ (2 ^ 63 <= pk ->
      fst (handle (GetUpdate pk) t) = InternalServerError OverflowError
      /\ fst (handle (GetDelete pk) t) = InternalServerError OverflowError).
Proof.
  intros Hnin. pose proof (select_none pk t Hnin) as Hsel.
  split; [|split].
  - intros [Hlo Hhi].
    rewrite (handle_update_missing _ _ Hsel Hlo),
      (handle_delete_missing _ _ Hsel Hlo).
    assert (Hfit : fits_int64 pk = true).
    { unfold fits_int64. apply andb_true_iff. split.
      - apply Z.leb_le. lia.
      - now apply Z.ltb_lt. }
    rewrite Hfit. simpl. repeat split; assumption.
  - intros Hneg.
    now rewrite (handle_update_no_match pk t Hneg),
      (handle_delete_no_match pk t Hneg).
  - intros Hbig.
    assert (Hlo : 0 <= pk) by lia.
    rewrite (handle_update_missing _ _ Hsel Hlo),
      (handle_delete_missing _ _ Hsel Hlo).
    assert (Hfit : fits_int64 pk = false).
    { unfold fits_int64. apply andb_false_iff. right.
      apply Z.ltb_ge. exact Hbig. }
    rewrite Hfit. simpl. split; reflexivity.
Qed.

Lemma update_delete_unknown_id_crash_witness :
  let t := [mkTodo 1 (Some "Buy milk") (Some false)] in
  ~ In 7 (ids t)
  /\ (0 <= 7 < 2 ^ 63 ->
      select_first_by_id 7 t = None
      /\ fst (handle (GetUpdate 7) t) = InternalServerError AttributeError
      /\ fst (handle (GetDelete 7) t) =
         InternalServerError UnmappedInstanceError
      /\ status_code (fst (handle (GetUpdate 7) t)) = 500
      /\ status_code (fst (handle (GetDelete 7) t)) = 500)
  /\ (7 < 0 ->
      fst (handle (GetUpdate 7) t) = NotFound
      /\ fst (handle (GetDelete 7) t) = NotFound)
  /\ (2 ^ 63 <= 7 ->
      fst (handle (GetUpdate 7) t) = InternalServerError OverflowError
      /\ fst (handle (GetDelete 7) t) = InternalServerError OverflowError).
Proof.
  intros t.
  assert (Hnin : ~ In 7 (ids t)) by (simpl; lia).
  split; [exact Hnin|].
  exact (update_delete_unknown_id_crash 7 t Hnin).
Defined.

(** C3, as the specification words it, fails: the id -1 is in no store,
    and an update or delete request for it is answered with a 404. *)
Lemma unknown_id_always_crashes_fails : ~ unknown_id_always_crashes.
Proof.
  intros H. specialize (H (-1) []).
  assert (Hnin : ~ In (-1) (ids [])) by (simpl; tauto).
  destruct (H Hnin) as [Hup _]. vm_compute in Hup. discriminate Hup.
Qed.

(** C4: for a todo [r] in a store of the application, delete answers
    with a redirect to the list view and commits a store that is the old
    one with exactly the row [r] taken out, every other row kept in
    place; the list view served next no longer shows [r]. *)
Theorem delete_removes_exactly_that_record (t : Table) (r : Todo) :
  reachable t -> In r t ->
  exists l1 l2 : Table,
    t = l1 ++ r :: l2
    /\ handle (GetDelete (id r)) t = (Redirect "/todos", l1 ++ l2)
    /\ handle GetTodos (l1 ++ l2) = (Rendered "base.html" (l1 ++ l2), l1 ++ l2)
    /\ ~ In r (l1 ++ l2)
    /\ (forall x : Todo, In x (l1 ++ l2) <-> In x t /\ x <> r).
Proof.
  intros Hreach Hin.
  destruct (reachable_inv t Hreach) as [Hnd _].
  destruct (sql_delete_split t r Hnd Hin) as [l1 [l2 [Ht [Hdel Hnin]]]].
  exists l1, l2.
  split; [assumption|]. split.
  { assert (Hpos : 0 <= id r)
      by (pose proof (reachable_ids_positive t r Hreach Hin); lia).
    rewrite (handle_delete_found _ _ _ (select_present t r Hnd Hin) Hpos).
    now rewrite Hdel. }
  split; [apply handle_get_tasks|]. split; [assumption|].
  intros x. rewrite Ht. rewrite !in_app_iff. simpl. split.
  - intros Hx. split; [tauto|].
    intros Heq. subst x. apply Hnin. now apply in_or_app.
  - intros [[Hx|[Hx|Hx]] Hne]; try tauto.
    subst x. contradiction.
Qed.

Lemma delete_removes_exactly_that_record_witness :
  let a := mkTodo 1 (Some "a") (Some false) in
  let b := mkTodo 2 (Some "b") (Some false) in
  let c := mkTodo 3 (Some "c") (Some false) in
  reachable [a; b; c] /\ In b [a; b; c]
  /\ exists l1 l2 : Table,
       [a; b; c] = l1 ++ b :: l2
       /\ handle (GetDelete (id b)) [a; b; c] = (Redirect "/todos", l1 ++ l2)
       /\ handle GetTodos (l1 ++ l2) =
          (Rendered "base.html" (l1 ++ l2), l1 ++ l2)
       /\ ~ In b (l1 ++ l2)
       /\ (forall x : Todo, In x (l1 ++ l2) <-> In x [a; b; c] /\ x <> b).
Proof.
  intros a b c.
  assert (Hreach : reachable [a; b; c])
    by (exists [PostCreate [("title", "a")]; PostCreate [("title", "b")];
                PostCreate [("title", "c")]]; reflexivity).
  assert (Hin : In b [a; b; c]) by (simpl; right; left; reflexivity).
  split; [exact Hreach|]. split; [exact Hin|].
  exact (delete_removes_exactly_that_record [a; b; c] b Hreach Hin).
Defined.

(** C5: for a todo [r] in a store of the application, update keeps the
    rows in number and order, keeps the id and the title of every row,
    and leaves every row other than [r] as it was; [r] itself differs
    from its old value in the completed flag only. *)
Theorem update_changes_only_completed (t : Table) (r : Todo) :
  reachable t -> In r t ->
  Forall2
    (fun old new : Todo =>
       id new = id old /\ title new = title old /\ (old <> r -> new = old))
    t (snd (handle (GetUpdate (id r)) t)).
Proof.
  intros Hreach Hin.
  destruct (reachable_inv t Hreach) as [Hnd _].
  assert (Hpos : 0 <= id r)
    by (pose proof (reachable_ids_positive t r Hreach Hin); lia).
  rewrite (handle_update_found _ _ _ (select_present t r Hnd Hin) Hpos).
  simpl. unfold sql_update_completed. apply Forall2_map_self.
  intros x Hx. destruct (Z.eqb_spec (id x) (id r)) as [Heq|Hne]; simpl.
  - repeat split. intros Hxr. exfalso. apply Hxr.
    now apply (unique_by_id t).
  - repeat split.
Qed.

Lemma update_changes_only_completed_witness :
  let a := mkTodo 1 (Some "a") (Some false) in
  let b := mkTodo 2 (Some "b") (Some false) in
  reachable [a; b] /\ In b [a; b]
  /\ Forall2
       (fun old new : Todo =>
          id new = id old /\ title new = title old /\ (old <> b -> new = old))
       [a; b] (snd (handle (GetUpdate (id b)) [a; b])).
Proof.
  intros a b.
  assert (Hreach : reachable [a; b])
    by (exists [PostCreate [("title", "a")]; PostCreate [("title", "b")]];
        reflexivity).
  assert (Hin : In b [a; b]) by (simpl; right; left; reflexivity).
  split; [exact Hreach|]. split; [exact Hin|].
  exact (update_changes_only_completed [a; b] b Hreach Hin).
Defined.

(** C6: on a store without todos the list view is served without an
    error, status 200, with the empty collection handed to the template,
    and the store stays empty. *)
Theorem list_of_empty_store :
  handle GetTodos [] = (Rendered "base.html" [], [])
  /\ status_code (fst (handle GetTodos [])) = 200.
Proof. split; reflexivity. Qed.

(** C7, as the code has it: in every store of the application each todo
    has its completed flag set to a boolean, and its title is a string
    or absent; a create request without the field [title] stores a todo
    whose title is absent, and one with the field stores that string. *)
Theorem completed_defined_title_optional (t : Table) :
  reachable t ->
  Forall (fun r => exists b : bool, completed r = Some b) t
  /\ (forall form : Form,
        form_get "title" form = None ->
        snd (handle (PostCreate form) t) =
        t ++ [mkTodo (new_rowid t) None (Some false)])
  /\ (forall (form : Form) (s : string),
        form_get "title" form = Some s ->
        snd (handle (PostCreate form) t) =
        t ++ [mkTodo (new_rowid t) (Some s) (Some false)]).
Proof.
  intros Hreach. destruct (reachable_inv t Hreach) as [_ Hc].
  split; [assumption|].
  split; intros form; [|intros s]; intros Hget;
    rewrite handle_create, sql_insert_appends, Hget; reflexivity.
Qed.

Lemma completed_defined_title_optional_witness :
  let t := [mkTodo 1 None (Some false)] in
  reachable t
  /\ Forall (fun r => exists b : bool, completed r = Some b) t
  /\ (forall form : Form,
        form_get "title" form = None ->
        snd (handle (PostCreate form) t) =
        t ++ [mkTodo (new_rowid t) None (Some false)])
  /\ (forall (form : Form) (s : string),
        form_get "title" form = Some s ->
        snd (handle (PostCreate form) t) =
        t ++ [mkTodo (new_rowid t) (Some s) (Some false)]).
Proof.
  intros t.
  assert (Hreach : reachable t) by (exists [PostCreate []]; reflexivity).
  split; [exact Hreach|].
  exact (completed_defined_title_optional t Hreach).
Defined.

(** C7, as the specification words it, fails: a create request that
    carries no [title] field stores a todo whose title is [None]. *)
Lemma title_always_string_fails : ~ title_always_string.
Proof.
  intros H.
  assert (Hreach : reachable [mkTodo 1 None (Some false)])
    by (exists [PostCreate []]; reflexivity).
  specialize (H _ Hreach). inversion H as [|? ? [s Hs] _]; subst.
  discriminate Hs.
Qed.

(** C8, as the code has it: in every store of the application no two
    todos share an id, and a create request gives the new todo an id the
    storage engine picks, one more than the largest id in the store (1
    in an empty store), so larger than, and different from, the id of
    every todo stored at that moment. *)
Theorem id_unique_and_fresh_among_stored (t : Table) (form : Form) :
  reachable t ->
  NoDup (ids t)
  /\ exists r : Todo,
       snd (handle (PostCreate form) t) = t ++ [r]
       /\ id r = match max_rowid t with None => 1 | Some m => m + 1 end
       /\ (forall x : Todo, In x t -> id x < id r)
       /\ ~ In (id r) (ids t)
       /\ NoDup (ids (t ++ [r])).
Proof.
  intros Hreach. destruct (reachable_inv t Hreach) as [Hnd _].
  split; [assumption|].
  exists (mkTodo (new_rowid t) (form_get "title" form) (Some false)).
  split; [|split; [|split; [|split]]].
  - now rewrite handle_create, sql_insert_appends.
  - reflexivity.
  - intros x Hx. simpl. now apply new_rowid_above.
  - simpl. apply new_rowid_fresh.
  - rewrite <- sql_insert_appends.
    apply (reachable_inv _ (reachable_step (PostCreate form) t Hreach)).
Qed.

Lemma id_unique_and_fresh_among_stored_witness :
  let t := [mkTodo 1 (Some "a") (Some false); mkTodo 2 (Some "b") (Some true)] in
  let form := [("title", "c")] in
  reachable t
  /\ NoDup (ids t)
  /\ exists r : Todo,
       snd (handle (PostCreate form) t) = t ++ [r]
       /\ id r = match max_rowid t with None => 1 | Some m => m + 1 end
       /\ (forall x : Todo, In x t -> id x < id r)
       /\ ~ In (id r) (ids t)
       /\ NoDup (ids (t ++ [r])).
Proof.
  intros t form.
  assert (Hreach : reachable t)
    by (exists [PostCreate [("title", "a")]; PostCreate [("title", "b")];
                GetUpdate 2]; reflexivity).
  split; [exact Hreach|].
  exact (id_unique_and_fresh_among_stored t form Hreach).
Defined.

(** C8, as the specification words it, fails: once the todo with the
    largest id is deleted, the next create request assigns that id
    again. Create, delete 1, create: the second todo has id 1. *)
Lemma id_never_reused_fails : ~ id_never_reused.
Proof.
  intros H.
  specialize (H [PostCreate [("title", "a")]] [] 1 [("title", "b")]).
  simpl in H.
  apply (H (or_introl eq_refl) (mkTodo 1 (Some "b") (Some false))).
  - vm_compute. left. reflexivity.
  - vm_compute. intros [].
  - reflexivity.
Qed.

(** C9: the root route answers every request, whatever the store and
    whatever the session holds, with status 200 and the same fixed text,
    and hands the session back as it received it: the answer does not
    depend on the todos, and neither the store nor the pending changes
    are touched. *)
Theorem root_route_static_greeting :
  (forall t : Table,
     handle GetRoot t = (Text "Hello, World!", t)
     /\ status_code (fst (handle GetRoot t)) = 200)
  /\ (forall s : Session, say_hello s = (inr (Text "Hello, World!"), s))
  /\ (forall t1 t2 : Table, fst (handle GetRoot t1) = fst (handle GetRoot t2)).
Proof.
  split; [|split].
  - intros t. split; reflexivity.
  - intros s. reflexivity.
  - intros t1 t2. reflexivity.
Qed.

(** C10: when update or delete is called with an id that no stored todo
    has, the request fails with nothing committed and nothing left
    pending: the store after the request is the store before it. The
    view functions raise [AttributeError] and [UnmappedInstanceError],
    or [OverflowError] from the lookup when the id does not fit 64
    bits. *)
Theorem failed_update_delete_leave_store (pk : Z) (t : Table) :
  ~ In pk (ids t) ->
  snd (handle (GetUpdate pk) t) = t
  /\ snd (handle (GetDelete pk) t) = t
  /\ update pk (mkSession t []) =
     (inl (if fits_int64 pk then AttributeError else OverflowError),
      mkSession t [])
  /\ delete pk (mkSession t []) =
     (inl (if fits_int64 pk then UnmappedInstanceError else OverflowError),
      mkSession t []).
Proof.
  intros Hnin. pose proof (select_none pk t Hnin) as Hsel.
  rewrite store_after_update, store_after_delete, Hsel.
  rewrite (sql_delete_absent pk t Hnin).
  split; [now destruct (pk <? 0)|]. split; [now destruct (pk <? 0)|].
  split; [now apply update_missing | now apply delete_missing].
Qed.

Lemma failed_update_delete_leave_store_witness :
  let t := [mkTodo 1 (Some "Buy milk") (Some false)] in
  ~ In 7 (ids t)
  /\ snd (handle (GetUpdate 7) t) = t
  /\ snd (handle (GetDelete 7) t) = t
  /\ update 7 (mkSession t []) = (inl AttributeError, mkSession t [])
  /\ delete 7 (mkSession t []) = (inl UnmappedInstanceError, mkSession t []).
Proof.
  intros t.
  assert (Hnin : ~ In 7 (ids t)) by (simpl; lia).
  split; [exact Hnin|].
  exact (failed_update_delete_leave_store 7 t Hnin).
Defined.

(** ** Further properties of the application *)

(** X1: a todo found under an id stays in the store, under that id and
    with its title, through every later sequence of requests that holds
    no delete request for the id; its completed flag is the one it had,
    flipped once for each update request for the id in the sequence. (A
    negative id is matched by no route, so then the flag is never
    flipped.) *)
Theorem todo_kept_until_deleted
    (pk : Z) (reqs : list Request) (t : Table) (r : Todo) (b : bool) :
  select_first_by_id pk t = Some r ->
  completed r = Some b ->
  ~ In (GetDelete pk) reqs ->
  select_first_by_id pk (serve reqs t) =
  Some (mkTodo (id r) (title r)
          (Some (xorb b (Nat.odd (if 0 <=? pk then toggles pk reqs else O))))).
Proof.
  destruct (0 <=? pk) eqn:Hp; revert t r b;
    induction reqs as [|req reqs IH]; intros t r b Hsel Hb Hnd.
  - simpl. rewrite xorb_false_r, (eta_completed r b Hb). exact Hsel.
  - assert (Hreq : req <> GetDelete pk)
      by (intros Heq; apply Hnd; now left).
    assert (Hrest : ~ In (GetDelete pk) reqs)
      by (intros Hin; apply Hnd; now right).
    pose proof (select_after_request pk req t r Hsel Hreq) as Hstep.
    rewrite serve_cons.
    destruct req as [| |form|pk'|pk']; cbn [toggles];
      try exact (IH _ r b Hstep Hb Hrest).
    rewrite Hp, andb_true_r in Hstep.
    destruct (Z.eqb_spec pk' pk) as [Heq|Hne].
    + rewrite Hb in Hstep. simpl in Hstep.
      rewrite (IH _ _ (negb b) Hstep eq_refl Hrest). simpl id. simpl title.
      rewrite Nat.odd_succ, <- Nat.negb_odd.
      now destruct b, (Nat.odd (toggles pk reqs)).
    + exact (IH _ r b Hstep Hb Hrest).
  - simpl. rewrite xorb_false_r, (eta_completed r b Hb). exact Hsel.
  - assert (Hreq : req <> GetDelete pk)
      by (intros Heq; apply Hnd; now left).
    assert (Hrest : ~ In (GetDelete pk) reqs)
      by (intros Hin; apply Hnd; now right).
    pose proof (select_after_request pk req t r Hsel Hreq) as Hstep.
    rewrite serve_cons. apply (IH _ r b); [|exact Hb|exact Hrest].
    destruct req; try exact Hstep.
    now rewrite Hp, andb_false_r in Hstep.
Qed.

Lemma todo_kept_until_deleted_witness :
  let r := mkTodo 1 (Some "a") (Some false) in
  let t := [r; mkTodo 2 (Some "b") (Some false)] in
  let reqs := [GetUpdate 1; PostCreate []; GetDelete 2; GetUpdate 1;
               GetUpdate 3; GetUpdate 1] in
  select_first_by_id 1 t = Some r
  /\ completed r = Some false
  /\ ~ In (GetDelete 1) reqs
  /\ select_first_by_id 1 (serve reqs t) =
     Some (mkTodo (id r) (title r)
             (Some (xorb false (Nat.odd (toggles 1 reqs))))).
Proof.
  intros r t reqs.
  assert (Hsel : select_first_by_id 1 t = Some r) by reflexivity.
  assert (Hb : completed r = Some false) by reflexivity.
  assert (Hnd : ~ In (GetDelete 1) reqs).
  { simpl. intros [H|[H|[H|[H|[H|[H|H]]]]]];
      try discriminate H; exact H. }
  split; [exact Hsel|]. split; [exact Hb|]. split; [exact Hnd|].
  exact (todo_kept_until_deleted 1 reqs t r false Hsel Hb Hnd).
Defined.

(** X2: update and delete requests for two different ids can be served
    in either order: the store they leave is the same, whether or not
    the ids are in the store. Two deletes commute for equal ids too. *)
Theorem requests_on_different_ids_commute (i j : Z) (t : Table) :
  i <> j ->
  serve [GetUpdate i; GetUpdate j] t = serve [GetUpdate j; GetUpdate i] t
  /\ serve [GetUpdate i; GetDelete j] t = serve [GetDelete j; GetUpdate i] t
  /\ serve [GetDelete i; GetDelete j] t = serve [GetDelete j; GetDelete i] t.
Proof.
  intros Hne. assert (Hne' : j <> i) by congruence.
  rewrite !serve_cons, !serve_nil.
  rewrite !store_after_delete, !store_after_update.
  split; [|split]; destruct (i <? 0); destruct (j <? 0); try reflexivity.
  - destruct (select_first_by_id i t) as [ri|] eqn:Hi;
      destruct (select_first_by_id j t) as [rj|] eqn:Hj;
      rewrite ?select_update_other, ?Hi, ?Hj by assumption;
      try reflexivity.
    symmetry. now apply update_update_swap.
  - rewrite select_delete_other by assumption.
    destruct (select_first_by_id i t) as [ri|]; [|reflexivity].
    symmetry. apply update_delete_swap.
  - apply delete_delete_swap.
Qed.

Lemma requests_on_different_ids_commute_witness :
  let t := [mkTodo 1 (Some "a") (Some false); mkTodo 2 (Some "b") (Some true)] in
  1 <> 2
  /\ serve [GetUpdate 1; GetUpdate 2] t = serve [GetUpdate 2; GetUpdate 1] t
  /\ serve [GetUpdate 1; GetDelete 2] t = serve [GetDelete 2; GetUpdate 1] t
  /\ serve [GetDelete 1; GetDelete 2] t = serve [GetDelete 2; GetDelete 1] t.
Proof.
  intros t.
  assert (Hne : 1 <> 2) by lia.
  split; [exact Hne|].
  exact (requests_on_different_ids_commute 1 2 t Hne).
Defined.

Lemma fits_int64_in_range (pk : Z) :
  0 <= pk < 2 ^ 63 -> fits_int64 pk = true.
Proof.
  intros [Hlo Hhi]. unfold fits_int64. apply andb_true_iff. split.
  - apply Z.leb_le. lia.
  - now apply Z.ltb_lt.
Qed.

Lemma update_response_cases (pk : Z) (t : Table) :
  (pk < 0 /\ fst (handle (GetUpdate pk) t) = NotFound)
  \/ (0 <= pk /\ In pk (ids t)
      /\ fst (handle (GetUpdate pk) t) = Redirect "/todos")
  \/ (0 <= pk /\ ~ In pk (ids t)
      /\ exists e : Exn,
           fst (handle (GetUpdate pk) t) = InternalServerError e
           /\ e <> BuildError).
Proof.
  destruct (Z.ltb_spec pk 0) as [Hneg|Hpos].
  - left. now rewrite (handle_update_no_match pk t Hneg).
  - right. destruct (select_first_by_id pk t) as [r|] eqn:Hsel.
    + left. rewrite (handle_update_found _ _ _ Hsel Hpos).
      split; [assumption|]. split; [|reflexivity].
      now apply (select_in_ids pk t r).
    + right. rewrite (handle_update_missing _ _ Hsel Hpos).
      split; [assumption|]. split; [now apply select_none_absent|].
      eexists. split; [reflexivity|]. now destruct (fits_int64 pk).
Qed.

Lemma delete_response_cases (pk : Z) (t : Table) :
  (pk < 0 /\ fst (handle (GetDelete pk) t) = NotFound)
  \/ (0 <= pk /\ In pk (ids t)
      /\ fst (handle (GetDelete pk) t) = Redirect "/todos")
  \/ (0 <= pk /\ ~ In pk (ids t)
      /\ exists e : Exn,
           fst (handle (GetDelete pk) t) = InternalServerError e
           /\ e <> BuildError).
Proof.
  destruct (Z.ltb_spec pk 0) as [Hneg|Hpos].
  - left. now rewrite (handle_delete_no_match pk t Hneg).
  - right. destruct (select_first_by_id pk t) as [r|] eqn:Hsel.
    + left. rewrite (handle_delete_found _ _ _ Hsel Hpos).
      split; [assumption|]. split; [|reflexivity].
      now apply (select_in_ids pk t r).
    + right. rewrite (handle_delete_missing _ _ Hsel Hpos).
      split; [assumption|]. split; [now apply select_none_absent|].
      eexists. split; [reflexivity|]. now destruct (fits_int64 pk).
Qed.

(** Closes a goal [(exists k, (req = GetUpdate k \/ req = GetDelete k) /\ P k)
    -> False] when the facts at hand contradict [P] for the id of [req],
    or when [req] is neither request. *)
Ltac no_such_id :=
  let k := fresh "k" in
  let H := fresh "H" in
  let Hk := fresh "Hk" in
  intros [k [[H|H] Hk]]; try discriminate H;
  injection H as H; subst k; intuition lia.

(** X3: leaving the list route aside, whose answer depends on a
    template that is not part of the sources, a request is answered with
    a 500 exactly when it is an update or a delete for a non-negative id
    that no stored todo has, and with a 404 exactly when it is an update
    or a delete for a negative id; every other request is answered with
    the greeting (root) or the redirect to the list view (create,
    update, delete), and no request fails in building the redirect
    target. *)
Theorem server_error_iff_unknown_id (req : Request) (t : Table) :
  req <> GetTodos ->
  (status_code (fst (handle req t)) = 500 <->
   exists pk : Z,
     (req = GetUpdate pk \/ req = GetDelete pk)
     /\ 0 <= pk /\ ~ In pk (ids t))
  /\ (status_code (fst (handle req t)) = 404 <->
      exists n : Z, (req = GetUpdate n \/ req = GetDelete n) /\ n < 0)
  /\ (status_code (fst (handle req t)) <> 500 ->
      status_code (fst (handle req t)) <> 404 ->
      fst (handle req t) =
      match req with
      | GetRoot => Text "Hello, World!"
      | _ => Redirect "/todos"
      end)
  /\ fst (handle req t) <> InternalServerError BuildError.
Proof.
  intros Hreq. destruct req as [| |form|pk|pk].
  - simpl. repeat split; try discriminate; no_such_id.
  - contradiction.
  - rewrite handle_create. simpl. repeat split; try discriminate; no_such_id.
  - destruct (update_response_cases pk t)
      as [[Hneg Hr]|[[Hpos [Hin Hr]]|[Hpos [Hnin [e [Hr He]]]]]];
      rewrite Hr; simpl; repeat split; try discriminate; try no_such_id;
      try (intros; exfalso; congruence).
    + intros _. exists pk. split; [now left | assumption].
    + intros _. exists pk. split; [now left | now split].
    + intros Heq. injection Heq as Heq. contradiction.
  - destruct (delete_response_cases pk t)
      as [[Hneg Hr]|[[Hpos [Hin Hr]]|[Hpos [Hnin [e [Hr He]]]]]];
      rewrite Hr; simpl; repeat split; try discriminate; try no_such_id;
      try (intros; exfalso; congruence).
    + intros _. exists pk. split; [now right | assumption].
    + intros _. exists pk. split; [now right | now split].
    + intros Heq. injection Heq as Heq. contradiction.
Qed.

Lemma server_error_iff_unknown_id_witness :
  let req := GetDelete 7 in
  let t := [mkTodo 1 (Some "a") (Some false)] in
  req <> GetTodos
  /\ (status_code (fst (handle req t)) = 500 <->
      exists pk : Z,
        (req = GetUpdate pk \/ req = GetDelete pk)
        /\ 0 <= pk /\ ~ In pk (ids t))
  /\ (status_code (fst (handle req t)) = 404 <->
      exists n : Z, (req = GetUpdate n \/ req = GetDelete n) /\ n < 0)
  /\ (status_code (fst (handle req t)) <> 500 ->
      status_code (fst (handle req t)) <> 404 ->
      fst (handle req t) =
      match req with
      | GetRoot => Text "Hello, World!"
      | _ => Redirect "/todos"
      end)
  /\ fst (handle req t) <> InternalServerError BuildError.
Proof.
  intros req t.
  assert (Hreq : req <> GetTodos) by discriminate.
  split; [exact Hreq|].
  exact (server_error_iff_unknown_id req t Hreq).
Defined.

(** X4: every view function, started on a session with nothing pending,
    hands the session back with nothing pending, whether it returns or
    raises, and so does the answer to a URL that matches no route:
    whatever a handler registers it also commits, so the teardown never
    drops a change. *)
Theorem nothing_left_pending (req : Request) (t : Table) :
  pending (snd (dispatch req (mkSession t []))) = []
  /\ rows (snd (dispatch req (mkSession t []))) = snd (handle req t).
Proof.
  unfold handle.
  destruct req as [| |form|pk|pk]; try (split; reflexivity);
    simpl dispatch; unfold int_converter; destruct (pk <? 0);
    try (split; reflexivity);
    unfold update, delete, bind, query_filter_by_id_first;
    simpl; destruct (select_first_by_id pk t); try (split; reflexivity);
    destruct (fits_int64 pk); split; reflexivity.
Qed.

(** X5: creating a todo and then deleting the id it received gives back
    the store as it was before; both requests are answered with the
    redirect, and the next create receives the same id again. This holds
    on every store on which the id to come is not negative, so on every
    store the application can reach; a negative id would match no route
    and the delete request would be answered with a 404. *)
Theorem create_then_delete_restores (form : Form) (t : Table) :
  (0 <= new_rowid t ->
   serve [PostCreate form; GetDelete (new_rowid t)] t = t
   /\ fst (handle (GetDelete (new_rowid t))
             (snd (handle (PostCreate form) t))) = Redirect "/todos"
   /\ new_rowid (serve [PostCreate form; GetDelete (new_rowid t)] t) =
      new_rowid t)
  /\ (reachable t -> 1 <= new_rowid t)
  /\ (new_rowid t < 0 ->
      handle (GetDelete (new_rowid t)) (snd (handle (PostCreate form) t)) =
      (NotFound, snd (handle (PostCreate form) t))).
Proof.
  split; [|split].
  - intros Hpos.
    assert (Hserve : serve [PostCreate form; GetDelete (new_rowid t)] t = t).
    { rewrite !serve_cons, serve_nil.
      rewrite store_after_delete, store_after_create.
      destruct (Z.ltb_spec (new_rowid t) 0) as [Hneg|_]; [lia|].
      unfold sql_delete. rewrite filter_app. simpl.
      rewrite Z.eqb_refl. simpl.
      rewrite app_nil_r. apply sql_delete_absent, new_rowid_fresh. }
    split; [exact Hserve|]. split; [|now rewrite Hserve].
    rewrite store_after_create.
    set (r := mkTodo (new_rowid t) (form_get "title" form) (Some false)).
    assert (Hsel : select_first_by_id (new_rowid t) (t ++ [r]) = Some r).
    { rewrite select_app_absent by apply select_none, new_rowid_fresh.
      unfold select_first_by_id, r. simpl. now rewrite Z.eqb_refl. }
    now rewrite (handle_delete_found _ _ _ Hsel Hpos).
  - intros Hreach.
    assert (Hb : forall r : Todo, In r t -> 1 <= id r <= Z.max 0 (new_rowid t)).
    { intros r Hin. pose proof (reachable_ids_positive t r Hreach Hin).
      pose proof (new_rowid_above t r Hin). lia. }
    assert (H0 : 0 <= Z.max 0 (new_rowid t)) by lia.
    pose proof (new_rowid_bounds t _ H0 Hb). lia.
  - intros Hneg. now apply handle_delete_no_match.
Qed.

(** X6: once a delete request for an id from 0 up to 2^63 - 1 has been
    served, found or not, the id is gone: a further update or delete
    request for it is answered with a 500 and leaves the store as the
    delete left it. *)
Theorem after_delete_id_is_unknown (pk : Z) (t : Table) :
  0 <= pk < 2 ^ 63 ->
  let t' := snd (handle (GetDelete pk) t) in
  ~ In pk (ids t')
  /\ handle (GetDelete pk) t' = (InternalServerError UnmappedInstanceError, t')
  /\ handle (GetUpdate pk) t' = (InternalServerError AttributeError, t').
Proof.
  intros Hrange t'. unfold t'. rewrite store_after_delete.
  destruct (Z.ltb_spec pk 0) as [Hneg|Hpos]; [lia|].
  pose proof (select_delete_same pk t) as Hsel.
  split; [now apply select_none_absent|].
  rewrite (handle_delete_missing _ _ Hsel Hpos),
    (handle_update_missing _ _ Hsel Hpos).
  rewrite (fits_int64_in_range pk Hrange). split; reflexivity.
Qed.

Lemma after_delete_id_is_unknown_witness :
  let t := [mkTodo 1 (Some "a") (Some false); mkTodo 2 None (Some true)] in
  0 <= 1 < 2 ^ 63
  /\ let t' := snd (handle (GetDelete 1) t) in
     ~ In 1 (ids t')
     /\ handle (GetDelete 1) t' =
        (InternalServerError UnmappedInstanceError, t')
     /\ handle (GetUpdate 1) t' = (InternalServerError AttributeError, t').
Proof.
  intros t.
  assert (Hrange : 0 <= 1 < 2 ^ 63) by (split; [lia | reflexivity]).
  split; [exact Hrange|].
  exact (after_delete_id_is_unknown 1 t Hrange).
Defined.

(** X7: after a create request the new todo is found under the id it
    received, with the title of the form and not completed, and the
    lookup of every other id answers as it did before the request. *)
Theorem create_then_lookup (form : Form) (t : Table) :
  select_first_by_id (new_rowid t) (snd (handle (PostCreate form) t)) =
  Some (mkTodo (new_rowid t) (form_get "title" form) (Some false))
  /\ (forall pk : Z,
        pk <> new_rowid t ->
        select_first_by_id pk (snd (handle (PostCreate form) t)) =
        select_first_by_id pk t).
Proof.
  rewrite store_after_create. split.
  - rewrite select_app_absent by apply select_none, new_rowid_fresh.
    unfold select_first_by_id. simpl. now rewrite Z.eqb_refl.
  - intros pk Hne.
    destruct (select_first_by_id pk t) as [r|] eqn:Hsel.
    + now apply select_app_found.
    + rewrite (select_app_absent _ _ _ Hsel).
      unfold select_first_by_id. simpl.
      destruct (Z.eqb_spec (new_rowid t) pk); [congruence | reflexivity].
Qed.

(** X8: of a posted form the create handler uses the first field named
    [title] and nothing else: fields with other names before it and any
    fields after it, a second [title] among them, do not change the todo
    that is stored; the value is stored as it is, the empty string too. *)
Theorem create_uses_first_title_field
    (pre post : Form) (v : string) (t : Table) :
  (forall kv : string * string, In kv pre -> fst kv <> "title") ->
  handle (PostCreate (pre ++ ("title", v) :: post)) t =
  (Redirect "/todos", t ++ [mkTodo (new_rowid t) (Some v) (Some false)]).
Proof.
  intros Hpre. rewrite handle_create, sql_insert_appends.
  rewrite (form_get_skip "title" pre _ Hpre). reflexivity.
Qed.

Lemma create_uses_first_title_field_witness :
  let pre := [("note", "x")] in
  let post := [("title", "second"); ("completed", "on")] in
  (forall kv : string * string, In kv pre -> fst kv <> "title")
  /\ handle (PostCreate (pre ++ ("title", "") :: post)) [] =
     (Redirect "/todos", [] ++ [mkTodo (new_rowid []) (Some "") (Some false)]).
Proof.
  intros pre post.
  assert (Hpre : forall kv : string * string, In kv pre -> fst kv <> "title").
  { intros kv [Hkv|[]]. subst kv. simpl. discriminate. }
  split; [exact Hpre|].
  exact (create_uses_first_title_field pre post "" [] Hpre).
Defined.

(** X9: in every store the application can reach, the rows stand in
    strictly increasing order of id, and the list view hands them to the
    template in that order: a todo created later is listed later. *)
Theorem list_view_in_id_order (t : Table) :
  reachable t ->
  StronglySorted Z.lt (ids t)
  /\ fst (handle GetTodos t) = Rendered "base.html" t.
Proof.
  intros [reqs Hreqs]. split; [|reflexivity]. subst t.
  assert (Hgen : forall t0 : Table,
             StronglySorted Z.lt (ids t0) ->
             StronglySorted Z.lt (ids (serve reqs t0))).
  { induction reqs as [|req reqs IH]; intros t0 Hs; [exact Hs|].
    rewrite serve_cons. apply IH. now apply handle_sorted. }
  apply Hgen. constructor.
Qed.

Lemma list_view_in_id_order_witness :
  let t := [mkTodo 2 (Some "b") (Some false); mkTodo 3 None (Some true)] in
  reachable t
  /\ StronglySorted Z.lt (ids t)
  /\ fst (handle GetTodos t) = Rendered "base.html" t.
Proof.
  intros t.
  assert (Hreach : reachable t)
    by (exists [PostCreate [("title", "a")]; PostCreate [("title", "b")];
                PostCreate []; GetDelete 1; GetUpdate 3]; reflexivity).
  split; [exact Hreach|].
  exact (list_view_in_id_order t Hreach).
Defined.

(** X10: after any history of requests on the empty store, every stored
    id is at least 1 and at most the number of create requests in the
    history. *)
Theorem ids_between_one_and_creates (reqs : list Request) (r : Todo) :
  In r (serve reqs []) -> 1 <= id r <= creates reqs.
Proof.
  intros Hr.
  assert (H0 : (0 <= 0)%Z) by lia.
  assert (Hb : forall x : Todo, In x [] -> 1 <= id x <= 0)
    by (intros x []).
  pose proof (serve_ids_bounded reqs [] 0 H0 Hb r Hr) as H. lia.
Qed.

Lemma ids_between_one_and_creates_witness :
  let reqs := [PostCreate [("title", "a")]; GetDelete 1;
               PostCreate [("title", "b")]; PostCreate []] in
  let r := mkTodo 2 None (Some false) in
  In r (serve reqs []) /\ 1 <= id r <= creates reqs.
Proof.
  intros reqs r.
  assert (Hr : In r (serve reqs [])) by (simpl; right; left; reflexivity).
  split; [exact Hr|].
  exact (ids_between_one_and_creates reqs r Hr).
Defined.

(** X11: the printed form of a todo shows its title and nothing of its
    id or completed flag: two todos with string titles print alike
    exactly when the titles are equal, and a todo without title prints
    like one whose title is the string "None" and like no other. *)
Theorem repr_shows_title_only (r1 r2 : Todo) :
  (forall s1 s2 : string,
     title r1 = Some s1 -> title r2 = Some s2 ->
     (Todo_repr r1 = Todo_repr r2 <-> s1 = s2))
  /\ (title r1 = None ->
      (Todo_repr r1 = Todo_repr r2 <->
       title r2 = None \/ title r2 = Some "None")).
Proof.
  split.
  - intros s1 s2 H1 H2. rewrite repr_eq_iff, H1, H2. simpl. reflexivity.
  - intros H1. rewrite repr_eq_iff, H1. simpl.
    destruct (title r2) as [s|]; simpl.
    + split.
      * intros H. right. now rewrite H.
      * intros [H|H]; [discriminate H | now injection H as H].
    + split; [now left | reflexivity].
Qed.
